(** * Fractal (Julia set) vera of tolvera: [src/tolvera/vera/fractal.py]

    The Taichi kernel computes in [ti.f32]; this development reads every
    float as a real number (Stdlib's [R]), so rounding, overflow and NaN are
    outside the model.  Loop indices and the iteration counter are machine
    integers that stay small ([0..50], grid indices) and are modelled by
    [nat]; an integer used in float arithmetic is injected with [INR]. *)

From Stdlib Require Import Reals Lra Lia.
From stdpp Require Import gmap strings list fin_maps.
From Equations Require Import Equations.

Open Scope R_scope.

(** ** The numeric kernel *)

(** A [ti.Vector] with two entries. *)
Definition Vec2 : Type := R * R.

(** A [ti.Vector] with four entries: red, green, blue, alpha. *)
Definition RGBA : Type := R * R * R * R.

Definition vadd (a b : Vec2) : Vec2 := (a.1 + b.1, a.2 + b.2).
Definition vmul (a b : Vec2) : Vec2 := (a.1 * b.1, a.2 * b.2).

(** [z.norm()]: the Euclidean length. *)
Definition norm (z : Vec2) : R := sqrt (z.1 * z.1 + z.2 * z.2).

(** [complex_sqr]:
    [ti.Vector([z[0] ** 2 - z[1] ** 2, 2.0 * z[0] * z[1]])]. *)
Definition complex_sqr (z : Vec2) : Vec2 :=
  (z.1 ^ 2 - z.2 ^ 2, 2 * z.1 * z.2).

(** Comparison of two floats is a decision the kernel takes at run time. *)
#[global] Instance Rlt_decision (x y : R) : Decision (x < y) := Rlt_dec x y.

(** The loop test [z.norm() < 20 and iterations < 50]. *)
Definition loop_guard (z : Vec2) (iterations : nat) : Prop :=
  norm z < 20 /\ (iterations < 50)%nat.

#[global] Instance loop_guard_dec z iterations :
  Decision (loop_guard z iterations).
Proof. unfold loop_guard. apply _. Defined.

(** The [while] loop of [draw], entered with the current [z] and
    [iterations]; it returns the counter at exit.  The recursion is the
    loop's own: one call per executed body, decreasing [50 - iterations]. *)
Equations? while_loop (c : Vec2) (z : Vec2) (iterations : nat) : nat
  by wf (50 - iterations)%nat lt :=
  while_loop c z iterations with decide (loop_guard z iterations) := {
    | left Hg => while_loop c (vadd (complex_sqr z) c) (S iterations);
    | right _ => iterations }.
Proof. destruct Hg as [_ Hlt]. lia. Qed.

(** The body of the [ti.ndrange] loop of [draw] for the cell [(i, j)] of a
    grid of [x] by [y] cells at time [t], line by line. *)

(** [uv = ti.Vector([i / x, j / y]) * 2 - 1] and
    [z = uv * ti.Vector([1.5, 1.0])] *)
Definition cell_z0 (x y i j : nat) : Vec2 :=
  let uv : Vec2 := (INR i / INR x * 2 - 1, INR j / INR y * 2 - 1) in
  vmul uv (1.5, 1.0).

(** [c = ti.Vector([-0.8, ti.cos(t) * 0.2])] *)
Definition cell_c (t : R) : Vec2 := (-0.8, cos t * 0.2).

(** [iterations] when the loop is left. *)
Definition cell_iterations (x y i j : nat) (t : R) : nat :=
  while_loop (cell_c t) (cell_z0 x y i j) 0.

(** [val = 1.0 - iterations * 0.02] *)
Definition cell_val (x y i j : nat) (t : R) : R :=
  1.0 - INR (cell_iterations x y i j t) * 0.02.

(** The vector assigned to [rgba[i, j]]. *)
Definition cell_color (x y i j : nat) (t : R) : RGBA :=
  let val := cell_val x y i j t in
  (val, 0.3 * val, 0.8 * val, 1.0).

Definition red (v : RGBA) : R := v.1.1.1.
Definition green (v : RGBA) : R := v.1.1.2.
Definition blue (v : RGBA) : R := v.1.2.
Definition alpha (v : RGBA) : R := v.2.

(** ** The host, the pixel buffer and the object store *)

(** The part of the [Tolvera] instance the vera reads: [tv.x] and [tv.y]. *)
Record Tolvera := { tv_x : nat; tv_y : nat }.

(** [ti.ndrange(x, y)]: every index pair of the grid.  The kernel runs the
    pairs in parallel; the model visits them in row order. *)
Definition ndrange (x y : nat) : list (nat * nat) :=
  i ← seq 0 x; j ← seq 0 y; [(i, j)].

(** A [Pixels] object, reduced to the field the vera touches:
    [px.rgba], indexed by [(i, j)]. *)
Record Pixels := { rgba : gmap (nat * nat) RGBA }.

(** Modelled from the spec: the constructor [Pixels(tv)] of [..pixels],
    which is not part of this file; it yields a pixel-buffer collaborator
    exposing a W×H grid of RGBA float cells indexable by (i, j).  The cells
    start at zero, as Taichi fields do. *)
Definition Pixels_new (tv : Tolvera) : Pixels :=
  {| rgba := list_to_map
       ((λ ij, (ij, (0, 0, 0, 0))) <$> ndrange (tv_x tv) (tv_y tv)) |}.

(** Python objects live in a store and are passed by reference; the host
    and other veras hold references into the same store. *)
Definition handle : Type := nat.
Abbreviation Heap := (gmap handle Pixels).

(** [self.px.px.rgba[i, j] = v] through the reference [p].  A reference
    always designates an object of the store, and [draw] writes the indices
    of [ndrange] only, which are the cells [Pixels(tv)] has; the other
    cases of [alter] and of the insertion are never reached. *)
Definition write_rgba (p : handle) (ij : nat * nat) (v : RGBA) (h : Heap)
  : Heap :=
  alter (λ P, {| rgba := <[ij := v]> (rgba P) |}) p h.

(** ** The Fractal vera *)

Module Fractal.

Record obj := mk {
  tv : Tolvera;
  kwargs : gmap string R;
  time : R;
  speed : R;
  px : handle }.

(** [__init__(self, tv, **kwargs)]. *)
Definition __init__ (tv : Tolvera) (kwargs : gmap string R) (h : Heap)
  : obj * Heap :=
  let p := fresh (dom h) in
  ({| tv := tv;
      kwargs := kwargs;
      time := 0.0;
      speed := default 0.03 (kwargs !! "speed"%string);
      px := p |},
   <[p := Pixels_new tv]> h).

(** The kernel [draw]. *)
Definition draw (self : obj) (h : Heap) : Heap :=
  let t := time self in
  foldl (λ h '(i, j),
           write_rgba (px self) (i, j)
             (cell_color (tv_x (tv self)) (tv_y (tv self)) i j t) h)
        h (ndrange (tv_x (tv self)) (tv_y (tv self))).

(** [set_speed(self, speed)]. *)
Definition set_speed (self : obj) (speed : R) : obj :=
  {| tv := tv self; kwargs := kwargs self; time := time self;
     speed := speed; px := px self |}.

(** [step(self)]: [self.time[None] += self.speed[None]], then [draw]. *)
Definition step (self : obj) (h : Heap) : obj * Heap :=
  let self' :=
    {| tv := tv self; kwargs := kwargs self;
       time := time self + speed self;
       speed := speed self; px := px self |} in
  (self', draw self' h).

(** [__call__(self)]: [step], then return [self.px]. *)
Definition __call__ (self : obj) (h : Heap) : handle * (obj * Heap) :=
  let '(self', h') := step self h in
  (px self', (self', h')).

(** What a host can do with the vera once it is constructed. *)
Inductive op := Step | SetSpeed (speed : R) | Call.

Definition exec (o : op) (s : obj * Heap) : obj * Heap :=
  match o with
  | Step => step s.1 s.2
  | SetSpeed v => (set_speed s.1 v, s.2)
  | Call => (__call__ s.1 s.2).2
  end.

(** A sequence of operations, first to last. *)
Definition run (ops : list op) (s : obj * Heap) : obj * Heap :=
  foldl (λ s o, exec o s) s ops.

End Fractal.

(** ** The reference definition of the field evaluator

    Written from the specification's description of [evaluate], with the
    orbit of the map as a sequence and the count as a first index. *)

Module Spec.

#[global] Instance Rle_decision (x y : R) : Decision (x <= y) := Rle_dec x y.

(** Complex squaring: (a,b)² = (a²-b², 2ab). *)
Definition sqr (z : R * R) : R * R :=
  let '(a, b) := z in (a * a - b * b, 2 * a * b).

(** |z| *)
Definition magnitude (z : R * R) : R :=
  let '(a, b) := z in sqrt (a * a + b * b).

(** The n-th point of the orbit of z0 under z ← z² + c. *)
Fixpoint orbit (c z0 : R * R) (n : nat) : R * R :=
  match n with
  | O => z0
  | S n' => let z := sqr (orbit c z0 n') in (z.1 + c.1, z.2 + c.2)
  end.

(** The number of iterations until |z| ≥ 20 or the count reaches 50: the
    first n below 50 whose orbit point has escaped, and 50 if none has. *)
Definition iterations (c z0 : R * R) : nat :=
  default 50%nat
    (List.find (λ n, bool_decide (20 <= magnitude (orbit c z0 n)))
               (seq 0 50)).

(** evaluate(i, j, W, H, t) → color *)
Definition evaluate (i j W H : nat) (t : R) : R * R * R * R :=
  let u := 2 * (INR i / INR W) - 1 in
  let v := 2 * (INR j / INR H) - 1 in
  let z0 := (u * 1.5, v * 1.0) in
  let c := (-0.8, cos t * 0.2) in
  let val := 1.0 - INR (iterations c z0) * 0.02 in
  (val, 0.3 * val, 0.8 * val, 1.0).

End Spec.

(** ** Auxiliary definitions for the properties *)

(** The buffer after the cells of [l] are written at time [t], as one
    update of the buffer's own map. *)
Definition written (x y : nat) (t : R) (l : list (nat * nat)) (P : Pixels)
  : Pixels :=
  {| rgba := foldl (λ m '(i, j), <[(i, j) := cell_color x y i j t]> m)
                   (rgba P) l |}.

(** The vera's reference points at an object of the store. *)
Definition live (s : Fractal.obj * Heap) : Prop :=
  is_Some (s.2 !! Fractal.px s.1).

(** Every speed the host sets is non-negative. *)
Definition forward (o : Fractal.op) : Prop :=
  match o with
  | Fractal.SetSpeed v => 0 <= v
  | _ => True
  end.

(** A 4 by 4 host, and the vera constructed on it in an empty store. *)
Definition tv4 : Tolvera := {| tv_x := 4; tv_y := 4 |}.
Definition fresh4 : Fractal.obj * Heap := Fractal.__init__ tv4 ∅ ∅.

(** The same vera after [set_speed(-0.03)]. *)
Definition reversed4 : Fractal.obj * Heap :=
  Fractal.run [Fractal.SetSpeed (-0.03)] fresh4.

(** A store in which the host already holds a pixel buffer, and a vera
    constructed in it. *)
Definition host_store : Heap := {[ 0%nat := Pixels_new tv4 ]}.
Definition hosted4 : Fractal.obj * Heap := Fractal.__init__ tv4 ∅ host_store.

(** The point opposite to [z], and its mirror image in the real axis. *)
Definition vneg (z : Vec2) : Vec2 := (- z.1, - z.2).
Definition vconj (z : Vec2) : Vec2 := (z.1, - z.2).

(** The operations that advance the clock. *)
Definition is_tick (o : Fractal.op) : Prop :=
  match o with
  | Fractal.SetSpeed _ => False
  | _ => True
  end.

(** A host without columns. *)
Definition tv0 : Tolvera := {| tv_x := 0; tv_y := 3 |}.

(** * Properties *)

(** ** The escape loop *)

(** One turn of the loop. *)
Lemma while_loop_turn c z k :
  while_loop c z k =
  if decide (loop_guard z k)
  then while_loop c (vadd (complex_sqr z) c) (S k)
  else k.
Proof.
  rewrite while_loop_equation_1 at 1.
  destruct (decide (loop_guard z k)); reflexivity.
Qed.

(** The counter never decreases and stops at the cap. *)
Lemma while_loop_bounds c z k :
  (k <= 50)%nat -> (k <= while_loop c z k <= 50)%nat.
Proof.
  remember (50 - k)%nat as m eqn:Hm.
  revert z k Hm. induction m as [|m IH]; intros z k Hm Hk.
  - rewrite while_loop_turn.
    destruct (decide (loop_guard z k)) as [[_ Hlt]|_]; lia.
  - rewrite while_loop_turn.
    destruct (decide (loop_guard z k)) as [_|_]; [|lia].
    specialize (IH (vadd (complex_sqr z) c) (S k)). lia.
Qed.

(** A loop entered with the guard true runs its body at least once. *)
Lemma while_loop_enters c z k :
  loop_guard z k -> (S k <= while_loop c z k)%nat.
Proof.
  intros Hg. rewrite while_loop_turn.
  destruct (decide (loop_guard z k)) as [_|Hn]; [|contradiction].
  destruct Hg as [_ Hlt].
  apply (while_loop_bounds c (vadd (complex_sqr z) c) (S k)). lia.
Qed.

(** The length test without the square root. *)
Lemma norm_lt_20 z : norm z < 20 <-> z.1 * z.1 + z.2 * z.2 < 400.
Proof.
  unfold norm. replace 20 with (sqrt 400).
  2:{ replace 400 with (20 * 20) by lra. apply sqrt_square. lra. }
  split; intros H.
  - apply sqrt_lt_0_alt. exact H.
  - apply sqrt_lt_1_alt. split; [nra | exact H].
Qed.

(** ** The kernel against the reference definition *)

Lemma norm_magnitude z : norm z = Spec.magnitude z.
Proof. destruct z as [a b]. reflexivity. Qed.

Lemma loop_body_orbit c z0 n :
  vadd (complex_sqr (Spec.orbit c z0 n)) c = Spec.orbit c z0 (S n).
Proof.
  simpl. destruct (Spec.orbit c z0 n) as [a b].
  unfold vadd, complex_sqr, Spec.sqr. simpl. f_equal; lra.
Qed.

(** Entered at the k-th orbit point with count k, the loop returns the
    first escaped index from k on, or the cap. *)
Lemma while_loop_find c z0 m k :
  (k + m = 50)%nat ->
  while_loop c (Spec.orbit c z0 k) k =
  default 50%nat
    (List.find (λ n, bool_decide (20 <= Spec.magnitude (Spec.orbit c z0 n)))
               (seq k m)).
Proof.
  revert k. induction m as [|m IH]; intros k Hk; rewrite while_loop_turn.
  - destruct (decide _) as [[_ Hlt]|_]; simpl; lia.
  - simpl. rewrite <- norm_magnitude.
    destruct (decide _) as [[Hn _]|Hn].
    + rewrite bool_decide_eq_false_2 by lra.
      rewrite loop_body_orbit. apply IH. lia.
    + rewrite bool_decide_eq_true_2; [reflexivity|].
      apply Rnot_lt_le. intros Hlt. apply Hn. split; [exact Hlt | lia].
Qed.

(** The reference count is the first escaped index: it is 50 or an
    escaped point, and no earlier point has escaped. *)
Lemma find_first_index (p : nat -> bool) m k :
  let r := default (k + m)%nat (List.find p (seq k m)) in
  (k <= r <= k + m)%nat /\
  ((r < k + m)%nat -> p r = true) /\
  (forall q, (k <= q < r)%nat -> p q = false).
Proof.
  revert k. induction m as [|m IH]; intros k; cbn [seq List.find].
  - cbn [default from_option]. unfold Datatypes.id.
    split; [lia|]. split; intros; lia.
  - destruct (p k) eqn:Hpk.
    + cbn [default from_option]. unfold Datatypes.id.
      split; [lia|]. split; [intros _; exact Hpk | intros; lia].
    + specialize (IH (S k)). cbn zeta in IH.
      replace (S k + m)%nat with (k + S m)%nat in IH by lia.
      destruct IH as (Hr & Hesc & Hbefore).
      split; [lia|]. split; [exact Hesc|].
      intros q Hq. destruct (decide (q = k)) as [->|Hne]; [exact Hpk|].
      apply Hbefore. lia.
Qed.

Lemma spec_iterations_first_escape c z0 :
  (Spec.iterations c z0 <= 50)%nat /\
  ((Spec.iterations c z0 < 50)%nat ->
   20 <= Spec.magnitude (Spec.orbit c z0 (Spec.iterations c z0))) /\
  (forall q, (q < Spec.iterations c z0)%nat ->
   Spec.magnitude (Spec.orbit c z0 q) < 20).
Proof.
  unfold Spec.iterations.
  pose proof (find_first_index
    (λ n, bool_decide (20 <= Spec.magnitude (Spec.orbit c z0 n))) 50 0)
    as (Hr & Hesc & Hbefore).
  cbn zeta in *. change (0 + 50)%nat with 50%nat in *.
  split; [lia|]. split.
  - intros Hlt. apply Hesc in Hlt. apply bool_decide_eq_true in Hlt. exact Hlt.
  - intros q Hq. specialize (Hbefore q ltac:(lia)).
    apply bool_decide_eq_false in Hbefore. lra.
Qed.

Lemma cell_iterations_spec x y i j t :
  cell_iterations x y i j t =
  Spec.iterations (-0.8, cos t * 0.2)
    ((2 * (INR i / INR x) - 1) * 1.5, (2 * (INR j / INR y) - 1) * 1.0).
Proof.
  unfold cell_iterations, Spec.iterations, cell_z0, cell_c, vmul.
  cbn [fst snd].
  replace (INR i / INR x * 2 - 1) with (2 * (INR i / INR x) - 1) by lra.
  replace (INR j / INR y * 2 - 1) with (2 * (INR j / INR y) - 1) by lra.
  set (c := (-0.8, cos t * 0.2)). set (z0 := (_, _)).
  change z0 with (Spec.orbit c z0 0) at 1.
  rewrite (while_loop_find c z0 50 0) by reflexivity. reflexivity.
Qed.

Lemma cell_color_spec x y i j t :
  cell_color x y i j t = Spec.evaluate i j x y t.
Proof.
  unfold cell_color, cell_val, Spec.evaluate.
  rewrite cell_iterations_spec. reflexivity.
Qed.

(** ** The grid and the buffer *)

Lemma elem_of_ndrange x y i j :
  (i, j) ∈ ndrange x y <-> (i < x)%nat /\ (j < y)%nat.
Proof.
  unfold ndrange. rewrite list_elem_of_bind. split.
  - intros (i' & Hj & Hi). apply list_elem_of_bind in Hj as (j' & Hij & Hj).
    apply list_elem_of_singleton in Hij. inversion Hij; subst.
    apply elem_of_seq in Hi, Hj. lia.
  - intros [Hi Hj]. exists i. split; [|apply elem_of_seq; lia].
    apply list_elem_of_bind. exists j. split; [|apply elem_of_seq; lia].
    apply list_elem_of_singleton. reflexivity.
Qed.

Lemma written_lookup x y t l P i j :
  rgba (written x y t l P) !! (i, j) =
  if decide ((i, j) ∈ l) then Some (cell_color x y i j t)
  else rgba P !! (i, j).
Proof.
  unfold written. cbn [rgba]. generalize (rgba P) as m.
  induction l as [|[i' j'] l IH]; intros m; cbn [foldl].
  - rewrite decide_False by apply not_elem_of_nil. reflexivity.
  - rewrite IH. destruct (decide ((i, j) ∈ l)) as [Hin|Hin].
    + rewrite decide_True by (right; exact Hin). reflexivity.
    + destruct (decide ((i, j) = (i', j'))) as [Heq|Hne].
      * inversion Heq; subst. rewrite decide_True by left.
        apply lookup_insert_eq.
      * rewrite lookup_insert_ne by congruence.
        rewrite decide_False; [reflexivity|].
        intros Hc. apply elem_of_cons in Hc as [Hc|Hc]; contradiction.
Qed.

(** The cell-by-cell writes through the reference amount to one update of
    the object behind it. *)
Lemma write_cells_alter x y t p (l : list (nat * nat)) (h : Heap) :
  foldl (λ h '(i, j), write_rgba p (i, j) (cell_color x y i j t) h) h l =
  alter (written x y t l) p h.
Proof.
  revert h. induction l as [|[i j] l IH]; intros h; simpl.
  - symmetry. apply alter_id. intros [m] _. reflexivity.
  - rewrite IH. unfold write_rgba. rewrite alter_alter_eq.
    apply alter_ext. intros [m] _. reflexivity.
Qed.

Lemma draw_alter self (h : Heap) :
  Fractal.draw self h =
  alter (written (tv_x (Fractal.tv self)) (tv_y (Fractal.tv self))
           (Fractal.time self)
           (ndrange (tv_x (Fractal.tv self)) (tv_y (Fractal.tv self))))
        (Fractal.px self) h.
Proof. unfold Fractal.draw. cbv zeta. rewrite write_cells_alter. reflexivity. Qed.

(** What [draw] leaves in the store: the vera's buffer with every grid cell
    rewritten, every other object as it was. *)
Lemma draw_lookup_px self (h : Heap) P :
  h !! Fractal.px self = Some P ->
  exists P', Fractal.draw self h !! Fractal.px self = Some P' /\
    forall i j,
      rgba P' !! (i, j) =
      if decide ((i < tv_x (Fractal.tv self))%nat /\
                 (j < tv_y (Fractal.tv self))%nat)
      then Some (cell_color (tv_x (Fractal.tv self)) (tv_y (Fractal.tv self))
                   i j (Fractal.time self))
      else rgba P !! (i, j).
Proof.
  intros HP. rewrite draw_alter. rewrite lookup_alter_eq, HP. simpl.
  eexists. split; [reflexivity|]. intros i j. rewrite written_lookup.
  destruct (decide ((i, j) ∈ _)) as [Hin|Hin];
    rewrite elem_of_ndrange in Hin.
  - rewrite decide_True by exact Hin. reflexivity.
  - rewrite decide_False by exact Hin. reflexivity.
Qed.

Lemma draw_lookup_ne self (h : Heap) q :
  q <> Fractal.px self -> Fractal.draw self h !! q = h !! q.
Proof. intros Hq. rewrite draw_alter. apply lookup_alter_ne. congruence. Qed.

Lemma draw_dom self (h : Heap) : dom (Fractal.draw self h) = dom h.
Proof. rewrite draw_alter. apply dom_alter_L. Qed.

Lemma NoDup_ndrange x y : NoDup (ndrange x y).
Proof.
  unfold ndrange. apply NoDup_bind; [| |apply NoDup_seq].
  - intros a b [c d] _ _ Ha Hb.
    apply list_elem_of_bind in Ha as (? & Ha%list_elem_of_singleton & _).
    apply list_elem_of_bind in Hb as (? & Hb%list_elem_of_singleton & _).
    congruence.
  - intros a _. apply NoDup_bind; [| |apply NoDup_seq].
    + intros j1 j2 v _ _ H1%list_elem_of_singleton H2%list_elem_of_singleton.
      congruence.
    + intros. apply NoDup_singleton.
Qed.

(** A new buffer has exactly the cells of the grid. *)
Lemma Pixels_new_lookup tv i j :
  rgba (Pixels_new tv) !! (i, j) =
  if decide ((i < tv_x tv)%nat /\ (j < tv_y tv)%nat)
  then Some (0, 0, 0, 0) else None.
Proof.
  unfold Pixels_new. cbn [rgba].
  destruct (decide _) as [Hin|Hout].
  - apply elem_of_list_to_map_1.
    + rewrite <- list_fmap_compose.
      apply NoDup_fmap_2_strong; [|apply NoDup_ndrange].
      intros a b _ _ Hab. exact Hab.
    + apply list_elem_of_fmap. exists (i, j). split; [reflexivity|].
      apply elem_of_ndrange. exact Hin.
  - apply not_elem_of_list_to_map_1. rewrite <- list_fmap_compose.
    intros Hc. apply list_elem_of_fmap in Hc as ([i' j'] & Heq & Hc).
    cbn in Heq. inversion Heq; subst. apply elem_of_ndrange in Hc.
    contradiction.
Qed.

(** The kernel may run the cells in any order: the result is the same. *)
Lemma write_order_irrelevant x y t p (l l' : list (nat * nat)) (h : Heap) :
  l ≡ₚ l' ->
  foldl (λ h '(i, j), write_rgba p (i, j) (cell_color x y i j t) h) h l =
  foldl (λ h '(i, j), write_rgba p (i, j) (cell_color x y i j t) h) h l'.
Proof.
  intros Hp. rewrite !write_cells_alter. apply alter_ext. intros P _.
  assert (Hm : rgba (written x y t l P) = rgba (written x y t l' P)).
  { apply map_eq. intros [i j]. rewrite !written_lookup.
    destruct (decide ((i, j) ∈ l)) as [Hin|Hin].
    - rewrite decide_True by (rewrite <- Hp; exact Hin). reflexivity.
    - rewrite decide_False by (rewrite <- Hp; exact Hin). reflexivity. }
  unfold written in *. cbn [rgba] in Hm. rewrite Hm. reflexivity.
Qed.

(** ** The driver: construction, [set_speed], [step], [__call__] *)

Lemma init_lookup tv kw (h : Heap) :
  (Fractal.__init__ tv kw h).2 !! Fractal.px (Fractal.__init__ tv kw h).1 =
  Some (Pixels_new tv).
Proof. unfold Fractal.__init__. cbn [fst snd Fractal.px]. apply lookup_insert_eq. Qed.

Lemma init_fresh tv kw (h : Heap) :
  Fractal.px (Fractal.__init__ tv kw h).1 ∉ dom h.
Proof. unfold Fractal.__init__. cbn [fst Fractal.px]. apply is_fresh. Qed.

Lemma live_init tv kw (h : Heap) : live (Fractal.__init__ tv kw h).
Proof. unfold live. rewrite init_lookup. eauto. Qed.

Lemma call_step self (h : Heap) :
  (Fractal.__call__ self h).2 = Fractal.step self h.
Proof. reflexivity. Qed.

(** No operation rebinds [self.px] or [self.tv], none adds or removes an
    object of the store. *)
Lemma exec_px o s : Fractal.px (Fractal.exec o s).1 = Fractal.px s.1.
Proof. destruct o; reflexivity. Qed.

Lemma exec_tv o s : Fractal.tv (Fractal.exec o s).1 = Fractal.tv s.1.
Proof. destruct o; reflexivity. Qed.

Lemma exec_dom o s : dom (Fractal.exec o s).2 = dom s.2.
Proof.
  destruct o; cbn [Fractal.exec]; rewrite ?call_step;
    unfold Fractal.step; cbn [snd]; rewrite ?draw_dom; reflexivity.
Qed.

Lemma run_px ops s : Fractal.px (Fractal.run ops s).1 = Fractal.px s.1.
Proof.
  revert s. induction ops as [|o ops IH]; intros s; [reflexivity|].
  unfold Fractal.run in *. cbn [foldl]. rewrite IH. apply exec_px.
Qed.

Lemma run_tv ops s : Fractal.tv (Fractal.run ops s).1 = Fractal.tv s.1.
Proof.
  revert s. induction ops as [|o ops IH]; intros s; [reflexivity|].
  unfold Fractal.run in *. cbn [foldl]. rewrite IH. apply exec_tv.
Qed.

Lemma run_dom ops s : dom (Fractal.run ops s).2 = dom s.2.
Proof.
  revert s. induction ops as [|o ops IH]; intros s; [reflexivity|].
  unfold Fractal.run in *. cbn [foldl]. rewrite IH. apply exec_dom.
Qed.

Lemma live_run ops s : live s -> live (Fractal.run ops s).
Proof.
  unfold live. rewrite run_px.
  rewrite <- !elem_of_dom, run_dom. trivial.
Qed.

(** [step] advances the clock by the speed, and only [set_speed] touches
    the speed. *)
Lemma step_time self (h : Heap) :
  Fractal.time (Fractal.step self h).1 = Fractal.time self + Fractal.speed self.
Proof. reflexivity. Qed.

Lemma steps_time n s :
  Fractal.time (Fractal.run (replicate n Fractal.Step) s).1 =
    Fractal.time s.1 + INR n * Fractal.speed s.1 /\
  Fractal.speed (Fractal.run (replicate n Fractal.Step) s).1 =
    Fractal.speed s.1.
Proof.
  revert s. induction n as [|n IH]; intros s.
  - cbn [replicate INR]. unfold Fractal.run. cbn [foldl]. split; [lra|reflexivity].
  - cbn [replicate]. unfold Fractal.run in *. cbn [foldl].
    destruct (IH (Fractal.exec Fractal.Step s)) as [Ht Hs].
    rewrite Ht, Hs, S_INR. cbn [Fractal.exec].
    rewrite step_time. unfold Fractal.step. cbn [fst Fractal.speed].
    split; [lra|reflexivity].
Qed.

(** What a tick leaves in the vera's buffer. *)
Lemma step_lookup_px self (h : Heap) P :
  h !! Fractal.px self = Some P ->
  exists Q, (Fractal.step self h).2 !! Fractal.px self = Some Q /\
    forall i j,
      (i < tv_x (Fractal.tv self))%nat -> (j < tv_y (Fractal.tv self))%nat ->
      rgba Q !! (i, j) =
      Some (cell_color (tv_x (Fractal.tv self)) (tv_y (Fractal.tv self)) i j
              (Fractal.time self + Fractal.speed self)).
Proof.
  intros HP. unfold Fractal.step. cbn [snd].
  match goal with |- context [Fractal.draw ?s h] => set (self' := s) end.
  destruct (draw_lookup_px self' h P HP) as (Q & HQ & Hcells).
  exists Q. split; [exact HQ|]. intros i j Hi Hj.
  rewrite Hcells. rewrite decide_True by (split; assumption). reflexivity.
Qed.

(** ** Bounds on one cell *)

Lemma unit_fraction i x : (i < x)%nat -> 0 <= INR i / INR x < 1.
Proof.
  intros Hi.
  assert (Hx : 0 < INR x) by (apply lt_0_INR; lia).
  assert (Hi' : INR i < INR x) by (apply lt_INR; exact Hi).
  pose proof (pos_INR i) as H0.
  pose proof (Rinv_0_lt_compat _ Hx) as Hinv.
  unfold Rdiv. split; [nra|].
  apply (Rmult_lt_reg_r (INR x)); [exact Hx|].
  rewrite Rmult_assoc, Rinv_l by lra. lra.
Qed.

Lemma cell_z0_square x y i j :
  (i < x)%nat -> (j < y)%nat ->
  (cell_z0 x y i j).1 * (cell_z0 x y i j).1 +
  (cell_z0 x y i j).2 * (cell_z0 x y i j).2 <= 1.5 ^ 2 + 1.0 ^ 2.
Proof.
  intros Hi%unit_fraction Hj%unit_fraction.
  unfold cell_z0, vmul. cbn [fst snd].
  set (a := INR i / INR x) in *. set (b := INR j / INR y) in *. nra.
Qed.

Lemma cell_iterations_le x y i j t : (cell_iterations x y i j t <= 50)%nat.
Proof. apply (while_loop_bounds (cell_c t) (cell_z0 x y i j) 0). lia. Qed.



Lemma cell_val_bounds x y i j t : 0.0 <= cell_val x y i j t <= 1.0.
Proof.
  pose proof (cell_iterations_le x y i j t) as Hle. unfold cell_val.
  pose proof (pos_INR (cell_iterations x y i j t)) as H0.
  apply le_INR in Hle.
  assert (H50 : INR 50 = 50) by (rewrite INR_IZR_INZ; reflexivity).
  rewrite H50 in Hle. lra.
Qed.

(** C7: for every cell index, grid size and time, the iteration count of
    the per-cell evaluation lies in [0, 50] and the brightness
    [val = 1.0 - iterations * 0.02] lies in [0.0, 1.0]. *)
Theorem iterations_and_val_bounded x y i j t :
  (0 <= cell_iterations x y i j t <= 50)%nat /\
  0.0 <= cell_val x y i j t <= 1.0.
Proof.
  split; [|apply cell_val_bounds].
  pose proof (cell_iterations_le x y i j t). lia.
Qed.

(** C10: for an in-range cell the start point [z0] has length at most
    [sqrt (1.5^2 + 1.0^2)], which is below 20, so the loop body runs at
    least once: the count is at least 1, [val] is at most 0.98, and none of
    the red, green and blue channels is 1.0. *)
Theorem in_range_cell_iterates x y i j t :
  (i < x)%nat -> (j < y)%nat ->
  norm (cell_z0 x y i j) <= sqrt (1.5 ^ 2 + 1.0 ^ 2) /\
  sqrt (1.5 ^ 2 + 1.0 ^ 2) < 20 /\
  (1 <= cell_iterations x y i j t)%nat /\
  cell_val x y i j t <= 0.98 /\
  red (cell_color x y i j t) <> 1.0 /\
  green (cell_color x y i j t) <> 1.0 /\
  blue (cell_color x y i j t) <> 1.0.
Proof.
  intros Hi Hj. pose proof (cell_z0_square x y i j Hi Hj) as Hsq.
  assert (Hn : norm (cell_z0 x y i j) < 20).
  { apply norm_lt_20. lra. }
  assert (Hit : (1 <= cell_iterations x y i j t)%nat).
  { apply (while_loop_enters (cell_c t) (cell_z0 x y i j) 0).
    split; [exact Hn | lia]. }
  assert (Hval : cell_val x y i j t <= 0.98).
  { unfold cell_val. apply le_INR in Hit. change (INR 1) with 1 in Hit. lra. }
  pose proof (cell_val_bounds x y i j t) as [Hv0 _].
  repeat split.
  - unfold norm. apply sqrt_le_1_alt. exact Hsq.
  - replace 20 with (sqrt (20 * 20)) by (apply sqrt_square; lra).
    apply sqrt_lt_1_alt. lra.
  - exact Hit.
  - exact Hval.
  - unfold red, cell_color. cbn [fst snd]. lra.
  - unfold green, cell_color. cbn [fst snd]. lra.
  - unfold blue, cell_color. cbn [fst snd]. lra.
Qed.

Lemma in_range_cell_iterates_witness :
  ((0 < 4)%nat /\ (0 < 4)%nat) /\
  (1 <= cell_iterations 4 4 0 0 0.03)%nat /\
  cell_val 4 4 0 0 0.03 <= 0.98.
Proof.
  split; [split; lia|].
  pose proof (in_range_cell_iterates 4 4 0 0 0.03 ltac:(lia) ltac:(lia))
    as (_ & _ & Hit & Hval & _).
  split; [exact Hit | exact Hval].
Defined.

(** ** The colour written to a cell *)

(** C1: for every in-range cell index and every time value, the colour
    that [draw] writes to the cell is the colour of the reference
    definition: normalise, scale to z0, take c = (-0.8, cos t * 0.2),
    iterate z ← z² + c until |z| ≥ 20 or 50 iterations, and colour by
    val = 1.0 - iterations * 0.02 as (val, 0.3 val, 0.8 val, 1.0). *)
Theorem draw_writes_reference_color self (h : Heap) P i j :
  h !! Fractal.px self = Some P ->
  (i < tv_x (Fractal.tv self))%nat -> (j < tv_y (Fractal.tv self))%nat ->
  exists P', Fractal.draw self h !! Fractal.px self = Some P' /\
    rgba P' !! (i, j) =
    Some (Spec.evaluate i j (tv_x (Fractal.tv self)) (tv_y (Fractal.tv self))
            (Fractal.time self)).
Proof.
  intros HP Hi Hj. destruct (draw_lookup_px self h P HP) as (P' & HP' & Hc).
  exists P'. split; [exact HP'|].
  rewrite Hc, decide_True by (split; assumption).
  rewrite cell_color_spec. reflexivity.
Qed.

Lemma draw_writes_reference_color_witness :
  (fresh4.2 !! Fractal.px fresh4.1 = Some (Pixels_new tv4) /\
   (0 < 4)%nat /\ (0 < 4)%nat) /\
  exists P', Fractal.draw fresh4.1 fresh4.2 !! Fractal.px fresh4.1 = Some P' /\
    rgba P' !! (0%nat, 0%nat) = Some (Spec.evaluate 0 0 4 4 0.0).
Proof.
  pose proof (init_lookup tv4 ∅ ∅) as HP.
  split; [split; [exact HP | split; lia]|].
  apply (draw_writes_reference_color fresh4.1 fresh4.2 (Pixels_new tv4) 0 0 HP);
    cbn [fresh4 Fractal.__init__ fst Fractal.tv tv4 tv_x tv_y]; lia.
Defined.

(** C2: after every [step], each of the W×H cells of the buffer holds a
    value that is a function of its index, the grid dimensions and the
    current time only: whatever the buffer [P] held before is gone. *)
Theorem step_overwrites_every_cell self (h : Heap) P i j :
  h !! Fractal.px self = Some P ->
  (i < tv_x (Fractal.tv self))%nat -> (j < tv_y (Fractal.tv self))%nat ->
  exists Q,
    (Fractal.step self h).2 !! Fractal.px (Fractal.step self h).1 = Some Q /\
    rgba Q !! (i, j) =
    Some (cell_color (tv_x (Fractal.tv self)) (tv_y (Fractal.tv self)) i j
            (Fractal.time (Fractal.step self h).1)).
Proof.
  intros HP Hi Hj. destruct (step_lookup_px self h P HP) as (Q & HQ & Hc).
  exists Q. split; [exact HQ|]. rewrite step_time. apply Hc; assumption.
Qed.

Lemma step_overwrites_every_cell_witness :
  (fresh4.2 !! Fractal.px fresh4.1 = Some (Pixels_new tv4) /\
   (3 < 4)%nat /\ (2 < 4)%nat) /\
  exists Q,
    (Fractal.step fresh4.1 fresh4.2).2 !! Fractal.px fresh4.1 = Some Q /\
    rgba Q !! (3%nat, 2%nat) = Some (cell_color 4 4 3 2 (0.0 + 0.03)).
Proof.
  pose proof (init_lookup tv4 ∅ ∅) as HP.
  split; [split; [exact HP | split; lia]|].
  apply (step_overwrites_every_cell fresh4.1 fresh4.2 (Pixels_new tv4) 3 2 HP);
    cbn [fresh4 Fractal.__init__ fst Fractal.tv tv4 tv_x tv_y]; lia.
Defined.

(** ** The clock *)

(** C3: from initial time 0, [n] calls of [step] at the constant speed [s]
    leave the time at [n * s]; the speed is either set with [set_speed]
    after construction or passed as the [speed] keyword. *)
Theorem time_after_n_steps tv kw (h : Heap) n s :
  Fractal.time
    (Fractal.run (replicate n Fractal.Step)
       (Fractal.set_speed (Fractal.__init__ tv kw h).1 s,
        (Fractal.__init__ tv kw h).2)).1 = INR n * s /\
  Fractal.time
    (Fractal.run (replicate n Fractal.Step)
       (Fractal.__init__ tv (<["speed"%string := s]> kw) h)).1 = INR n * s.
Proof.
  split.
  - rewrite (proj1 (steps_time n _)).
    cbn [fst Fractal.__init__ Fractal.set_speed Fractal.time Fractal.speed].
    lra.
  - rewrite (proj1 (steps_time n _)).
    cbn [fst Fractal.__init__ Fractal.time Fractal.speed].
    rewrite lookup_insert_eq. change (default 0.03 (Some s)) with s. lra.
Qed.

Lemma run_forward ops s :
  0 <= Fractal.time s.1 -> 0 <= Fractal.speed s.1 -> Forall forward ops ->
  0 <= Fractal.time (Fractal.run ops s).1 /\
  0 <= Fractal.speed (Fractal.run ops s).1.
Proof.
  revert s. induction ops as [|o ops IH]; intros s Ht Hs Hf.
  - split; assumption.
  - apply Forall_cons in Hf as [Ho Hf].
    unfold Fractal.run in *. cbn [foldl]. apply IH; [| |exact Hf].
    + destruct o; cbn [Fractal.exec]; rewrite ?call_step, ?step_time;
        cbn [fst Fractal.set_speed Fractal.time]; lra.
    + destruct o; cbn [Fractal.exec]; rewrite ?call_step;
        cbn [fst Fractal.step Fractal.set_speed Fractal.speed];
        [exact Hs | exact Ho | exact Hs].
Qed.

(** C4, as the code has it: the time starts at 0 and each [step] adds the
    current speed to it.  When the speed passed at construction and every
    speed given to [set_speed] is non-negative, the time is non-negative in
    every reachable state and no [step] decreases it. *)
Theorem time_nonneg_monotone_forward tv kw (h : Heap) ops :
  0 <= default 0.03 (kw !! "speed"%string) -> Forall forward ops ->
  0 <= Fractal.time (Fractal.run ops (Fractal.__init__ tv kw h)).1 /\
  Fractal.time (Fractal.run ops (Fractal.__init__ tv kw h)).1 <=
  Fractal.time
    (Fractal.step (Fractal.run ops (Fractal.__init__ tv kw h)).1
                  (Fractal.run ops (Fractal.__init__ tv kw h)).2).1.
Proof.
  intros Hk Hf.
  destruct (run_forward ops (Fractal.__init__ tv kw h)) as [Ht Hs].
  - cbn [fst Fractal.__init__ Fractal.time]. lra.
  - exact Hk.
  - exact Hf.
  - split; [exact Ht|]. rewrite step_time. lra.
Qed.

Lemma time_nonneg_monotone_forward_witness :
  (0 <= default 0.03 ((∅ : gmap string R) !! "speed"%string) /\
   Forall forward
     [Fractal.SetSpeed 0; Fractal.Step; Fractal.SetSpeed 1; Fractal.Call]) /\
  0 <= Fractal.time
         (Fractal.run
            [Fractal.SetSpeed 0; Fractal.Step; Fractal.SetSpeed 1; Fractal.Call]
            fresh4).1.
Proof.
  assert (Hk : 0 <= default 0.03 ((∅ : gmap string R) !! "speed"%string)).
  { rewrite lookup_empty. cbn [default]. lra. }
  assert (Hf : Forall forward
     [Fractal.SetSpeed 0; Fractal.Step; Fractal.SetSpeed 1; Fractal.Call]).
  { repeat constructor; cbn [forward]; lra. }
  split; [split; [exact Hk | exact Hf]|].
  exact (proj1 (time_nonneg_monotone_forward tv4 ∅ ∅ _ Hk Hf)).
Defined.

(** C4 fails as stated: with the speed set to -0.03 the first [step] takes
    the time from 0 to -0.03, which is negative and below the time before
    the step. *)
Lemma reversed_step_time_negative :
  ~ 0 <= Fractal.time (Fractal.exec Fractal.Step reversed4).1 /\
  ~ Fractal.time reversed4.1 <=
    Fractal.time (Fractal.exec Fractal.Step reversed4).1.
Proof.
  cbn [Fractal.exec]. rewrite step_time.
  unfold reversed4, Fractal.run, fresh4.
  cbn [foldl Fractal.exec fst snd Fractal.__init__ Fractal.set_speed
       Fractal.time Fractal.speed].
  split; lra.
Qed.

(** ** Frame conditions *)

(** C9: [step] leaves the speed as it is; [set_speed] leaves the time and
    the whole store, hence the colour buffer, as they are, and changes
    nothing of the vera but the speed. *)
Theorem step_set_speed_frame self (h : Heap) v :
  Fractal.speed (Fractal.step self h).1 = Fractal.speed self /\
  Fractal.time (Fractal.set_speed self v) = Fractal.time self /\
  (Fractal.exec (Fractal.SetSpeed v) (self, h)).2 = h /\
  Fractal.px (Fractal.set_speed self v) = Fractal.px self /\
  Fractal.tv (Fractal.set_speed self v) = Fractal.tv self /\
  Fractal.speed (Fractal.set_speed self v) = v.
Proof. repeat split. Qed.

(** ** Symmetries in time *)

Lemma cos_two_pi t : cos (t + 2 * PI) = cos t.
Proof.
  replace (t + 2 * PI) with (t + 2 * INR 1 * PI) by (cbn [INR]; lra).
  apply cos_period.
Qed.

(** The time enters a cell's colour through [cos t] alone. *)
Lemma cell_color_cos x y i j t t' :
  cos t = cos t' -> cell_color x y i j t = cell_color x y i j t'.
Proof.
  intros Hc. unfold cell_color, cell_val, cell_iterations, cell_c.
  rewrite Hc. reflexivity.
Qed.

(** Two ticks, possibly of different veras on the same grid, whose times
    have the same cosine leave the same colour in every cell. *)
Lemma ticks_agree self self' (h h' : Heap) P P' i j :
  h !! Fractal.px self = Some P -> h' !! Fractal.px self' = Some P' ->
  Fractal.tv self' = Fractal.tv self ->
  cos (Fractal.time (Fractal.step self' h').1) =
  cos (Fractal.time (Fractal.step self h).1) ->
  (i < tv_x (Fractal.tv self))%nat -> (j < tv_y (Fractal.tv self))%nat ->
  exists Q Q',
    (Fractal.step self h).2 !! Fractal.px self = Some Q /\
    (Fractal.step self' h').2 !! Fractal.px self' = Some Q' /\
    rgba Q' !! (i, j) = rgba Q !! (i, j) /\
    is_Some (rgba Q !! (i, j)).
Proof.
  intros HP HP' Htv Hcos Hi Hj.
  destruct (step_lookup_px self h P HP) as (Q & HQ & Hc).
  destruct (step_lookup_px self' h' P' HP') as (Q' & HQ' & Hc').
  exists Q, Q'. split; [exact HQ|]. split; [exact HQ'|].
  rewrite Hc by assumption.
  rewrite Hc' by (rewrite Htv; assumption).
  rewrite Htv. rewrite !step_time in Hcos.
  split; [|eauto]. f_equal. apply cell_color_cos. exact Hcos.
Qed.

(** At a constant speed [s] with [n * s = 2π], tick [k + 1] and tick
    [k + n + 1] of the same vera leave the same colours. *)
Lemma ticks_one_period_apart tv kw (h : Heap) s n k i j :
  INR n * s = 2 * PI -> (i < tv_x tv)%nat -> (j < tv_y tv)%nat ->
  exists Q Q',
    (Fractal.run (replicate (S k) Fractal.Step)
       (Fractal.set_speed (Fractal.__init__ tv kw h).1 s,
        (Fractal.__init__ tv kw h).2)).2
      !! Fractal.px (Fractal.__init__ tv kw h).1 = Some Q /\
    (Fractal.run (replicate (S (k + n)) Fractal.Step)
       (Fractal.set_speed (Fractal.__init__ tv kw h).1 s,
        (Fractal.__init__ tv kw h).2)).2
      !! Fractal.px (Fractal.__init__ tv kw h).1 = Some Q' /\
    rgba Q' !! (i, j) = rgba Q !! (i, j) /\
    is_Some (rgba Q !! (i, j)).
Proof.
  intros Hper Hi Hj.
  set (s0 := (Fractal.set_speed (Fractal.__init__ tv kw h).1 s,
              (Fractal.__init__ tv kw h).2)).
  assert (Hlive : live s0).
  { unfold live, s0. cbn [fst snd]. apply (live_init tv kw h). }
  assert (Hsplit : forall m, Fractal.run (replicate (S m) Fractal.Step) s0 =
            Fractal.step (Fractal.run (replicate m Fractal.Step) s0).1
                         (Fractal.run (replicate m Fractal.Step) s0).2).
  { intros m. rewrite replicate_S_end. unfold Fractal.run.
    rewrite foldl_app. reflexivity. }
  rewrite !Hsplit.
  set (A := Fractal.run (replicate k Fractal.Step) s0).
  set (B := Fractal.run (replicate (k + n) Fractal.Step) s0).
  assert (HpA : Fractal.px A.1 = Fractal.px (Fractal.__init__ tv kw h).1)
    by (unfold A; rewrite run_px; reflexivity).
  assert (HpB : Fractal.px B.1 = Fractal.px (Fractal.__init__ tv kw h).1)
    by (unfold B; rewrite run_px; reflexivity).
  assert (HtA : Fractal.tv A.1 = tv) by (unfold A; rewrite run_tv; reflexivity).
  assert (HtB : Fractal.tv B.1 = tv) by (unfold B; rewrite run_tv; reflexivity).
  destruct (live_run (replicate k Fractal.Step) s0 Hlive) as [P HP].
  destruct (live_run (replicate (k + n) Fractal.Step) s0 Hlive) as [P' HP'].
  fold A in HP. fold B in HP'.
  destruct (ticks_agree A.1 B.1 A.2 B.2 P P' i j HP HP')
    as (Q & Q' & HQ & HQ' & Heq & Hsome).
  - rewrite HtA, HtB. reflexivity.
  - rewrite !step_time. unfold A, B.
    destruct (steps_time k s0) as [-> ->].
    destruct (steps_time (k + n) s0) as [-> ->].
    rewrite plus_INR.
    replace (Fractal.time s0.1 + (INR k + INR n) * Fractal.speed s0.1 +
             Fractal.speed s0.1)
      with (Fractal.time s0.1 + INR k * Fractal.speed s0.1 +
            Fractal.speed s0.1 + 2 * PI)
      by (unfold s0; cbn [fst Fractal.set_speed Fractal.speed]; lra).
    apply cos_two_pi.
  - rewrite HtA. exact Hi.
  - rewrite HtA. exact Hj.
  - rewrite HpA in HQ. rewrite HpB in HQ'. exists Q, Q'. auto.
Qed.

(** C5: the imaginary part of [c] is the same at [t] and at [t + 2π], and
    two ticks whose times differ by exactly 2π leave identical buffers,
    cell for cell. *)
Theorem buffers_repeat_after_two_pi self self' (h h' : Heap) P P' i j :
  h !! Fractal.px self = Some P -> h' !! Fractal.px self' = Some P' ->
  Fractal.tv self' = Fractal.tv self ->
  Fractal.time (Fractal.step self' h').1 =
  Fractal.time (Fractal.step self h).1 + 2 * PI ->
  (i < tv_x (Fractal.tv self))%nat -> (j < tv_y (Fractal.tv self))%nat ->
  (forall t, (cell_c (t + 2 * PI)).2 = (cell_c t).2) /\
  exists Q Q',
    (Fractal.step self h).2 !! Fractal.px self = Some Q /\
    (Fractal.step self' h').2 !! Fractal.px self' = Some Q' /\
    rgba Q' !! (i, j) = rgba Q !! (i, j) /\
    is_Some (rgba Q !! (i, j)).
Proof.
  intros HP HP' Htv Ht Hi Hj. split.
  - intros t. unfold cell_c. cbn [snd]. rewrite cos_two_pi. reflexivity.
  - apply (ticks_agree self self' h h' P P'); try assumption.
    rewrite Ht. apply cos_two_pi.
Qed.

Lemma buffers_repeat_after_two_pi_witness :
  (fresh4.2 !! Fractal.px (Fractal.set_speed fresh4.1 0) =
     Some (Pixels_new tv4) /\
   fresh4.2 !! Fractal.px (Fractal.set_speed fresh4.1 (2 * PI)) =
     Some (Pixels_new tv4) /\
   Fractal.time
     (Fractal.step (Fractal.set_speed fresh4.1 (2 * PI)) fresh4.2).1 =
   Fractal.time (Fractal.step (Fractal.set_speed fresh4.1 0) fresh4.2).1
     + 2 * PI) /\
  exists Q Q',
    (Fractal.step (Fractal.set_speed fresh4.1 0) fresh4.2).2
      !! Fractal.px fresh4.1 = Some Q /\
    (Fractal.step (Fractal.set_speed fresh4.1 (2 * PI)) fresh4.2).2
      !! Fractal.px fresh4.1 = Some Q' /\
    rgba Q' !! (1%nat, 2%nat) = rgba Q !! (1%nat, 2%nat) /\
    is_Some (rgba Q !! (1%nat, 2%nat)).
Proof.
  pose proof (init_lookup tv4 ∅ ∅) as HP.
  assert (Ht : Fractal.time
       (Fractal.step (Fractal.set_speed fresh4.1 (2 * PI)) fresh4.2).1 =
     Fractal.time (Fractal.step (Fractal.set_speed fresh4.1 0) fresh4.2).1
       + 2 * PI).
  { rewrite !step_time.
    cbn [fresh4 Fractal.__init__ fst Fractal.set_speed Fractal.time
         Fractal.speed]. lra. }
  split; [split; [exact HP | split; [exact HP | exact Ht]]|].
  refine (proj2 (buffers_repeat_after_two_pi
            (Fractal.set_speed fresh4.1 0)
            (Fractal.set_speed fresh4.1 (2 * PI))
            fresh4.2 fresh4.2 (Pixels_new tv4) (Pixels_new tv4) 1 2
            HP HP eq_refl Ht _ _));
    cbn [fresh4 Fractal.__init__ fst Fractal.set_speed Fractal.tv tv4
         tv_x tv_y]; lia.
Defined.

(** C6: the buffer produced at time [-t] equals the buffer produced at
    time [t], because a cell's colour depends on the time through the even
    function [cos] only; so a tick that ends at the negated time of another
    leaves the same colours, as after [set_speed(-0.03)] and after
    [set_speed(0.03)] from time 0. *)
Theorem buffer_even_in_time self self' (h h' : Heap) P P' i j :
  h !! Fractal.px self = Some P -> h' !! Fractal.px self' = Some P' ->
  Fractal.tv self' = Fractal.tv self ->
  Fractal.time (Fractal.step self' h').1 =
  - Fractal.time (Fractal.step self h).1 ->
  (i < tv_x (Fractal.tv self))%nat -> (j < tv_y (Fractal.tv self))%nat ->
  (forall t,
     cell_color (tv_x (Fractal.tv self)) (tv_y (Fractal.tv self)) i j (- t) =
     cell_color (tv_x (Fractal.tv self)) (tv_y (Fractal.tv self)) i j t) /\
  exists Q Q',
    (Fractal.step self h).2 !! Fractal.px self = Some Q /\
    (Fractal.step self' h').2 !! Fractal.px self' = Some Q' /\
    rgba Q' !! (i, j) = rgba Q !! (i, j) /\
    is_Some (rgba Q !! (i, j)).
Proof.
  intros HP HP' Htv Ht Hi Hj. split.
  - intros t. apply cell_color_cos. apply cos_neg.
  - apply (ticks_agree self self' h h' P P'); try assumption.
    rewrite Ht. apply cos_neg.
Qed.

Lemma buffer_even_in_time_witness :
  (fresh4.2 !! Fractal.px (Fractal.set_speed fresh4.1 0.03) =
     Some (Pixels_new tv4) /\
   reversed4.2 !! Fractal.px reversed4.1 = Some (Pixels_new tv4) /\
   Fractal.time (Fractal.step reversed4.1 reversed4.2).1 = - 0.03 /\
   Fractal.time
     (Fractal.step (Fractal.set_speed fresh4.1 0.03) fresh4.2).1 = 0.03) /\
  exists Q Q',
    (Fractal.step (Fractal.set_speed fresh4.1 0.03) fresh4.2).2
      !! Fractal.px fresh4.1 = Some Q /\
    (Fractal.step reversed4.1 reversed4.2).2
      !! Fractal.px reversed4.1 = Some Q' /\
    rgba Q' !! (0%nat, 3%nat) = rgba Q !! (0%nat, 3%nat) /\
    is_Some (rgba Q !! (0%nat, 3%nat)).
Proof.
  pose proof (init_lookup tv4 ∅ ∅) as HP.
  assert (Hr : Fractal.time (Fractal.step reversed4.1 reversed4.2).1 = - 0.03).
  { rewrite step_time.
    cbn [reversed4 Fractal.run foldl Fractal.exec fresh4 Fractal.__init__
         fst Fractal.set_speed Fractal.time Fractal.speed]. lra. }
  assert (Hf : Fractal.time
     (Fractal.step (Fractal.set_speed fresh4.1 0.03) fresh4.2).1 = 0.03).
  { rewrite step_time.
    cbn [fresh4 Fractal.__init__ fst Fractal.set_speed Fractal.time
         Fractal.speed]. lra. }
  split; [split; [exact HP | split; [exact HP | split; [exact Hr | exact Hf]]]|].
  refine (proj2 (buffer_even_in_time
            (Fractal.set_speed fresh4.1 0.03) reversed4.1
            fresh4.2 reversed4.2 (Pixels_new tv4) (Pixels_new tv4) 0 3
            HP HP eq_refl _ _ _)).
  - rewrite Hr, Hf. lra.
  - cbn [fresh4 Fractal.__init__ fst Fractal.set_speed Fractal.tv tv4 tv_x].
    lia.
  - cbn [fresh4 Fractal.__init__ fst Fractal.set_speed Fractal.tv tv4 tv_y].
    lia.
Defined.

(** ** Ownership of the buffer *)

Lemma exec_lookup_ne o s q :
  q <> Fractal.px s.1 -> (Fractal.exec o s).2 !! q = s.2 !! q.
Proof.
  intros Hq. destruct o; cbn [Fractal.exec]; rewrite ?call_step;
    unfold Fractal.step; cbn [snd]; rewrite ?draw_lookup_ne;
    try reflexivity; exact Hq.
Qed.

Lemma run_lookup_ne ops s q :
  q <> Fractal.px s.1 -> (Fractal.run ops s).2 !! q = s.2 !! q.
Proof.
  revert s. induction ops as [|o ops IH]; intros s Hq; [reflexivity|].
  unfold Fractal.run in *. cbn [foldl].
  rewrite IH by (rewrite exec_px; exact Hq). apply exec_lookup_ne. exact Hq.
Qed.

(** C8 fails as stated: the buffer is not handed to the constructor.  In a
    store where the host already holds a pixel buffer, constructing the
    vera adds a second one, and the vera is bound to that new one. *)
Lemma construction_allocates_buffer :
  (Fractal.px hosted4.1 ∉ dom host_store) /\
  dom hosted4.2 <> dom host_store.
Proof.
  pose proof (init_fresh tv4 ∅ host_store) as Hfresh.
  split; [exact Hfresh|]. intros Hdom. apply Hfresh.
  change (Fractal.px hosted4.1 ∈ dom host_store). rewrite <- Hdom.
  apply elem_of_dom. unfold hosted4. rewrite init_lookup. eauto.
Qed.

(** C8, as the code has it: [__init__] takes the host handle [tv] only and
    creates the buffer itself with [Pixels(tv)], a new object of the store
    next to the ones already there.  From then on the vera keeps that one
    reference: no sequence of [step], [set_speed] and [__call__] rebinds
    it, allocates or frees an object, or changes any other object, and
    [__call__] returns that reference. *)
Theorem buffer_created_at_construction tv kw (h : Heap) ops :
  (Fractal.px (Fractal.__init__ tv kw h).1 ∉ dom h) /\
  (Fractal.__init__ tv kw h).2 !! Fractal.px (Fractal.__init__ tv kw h).1 =
    Some (Pixels_new tv) /\
  dom (Fractal.__init__ tv kw h).2 =
    {[Fractal.px (Fractal.__init__ tv kw h).1]} ∪ dom h /\
  (forall q, q ∈ dom h -> (Fractal.__init__ tv kw h).2 !! q = h !! q) /\
  Fractal.px (Fractal.run ops (Fractal.__init__ tv kw h)).1 =
    Fractal.px (Fractal.__init__ tv kw h).1 /\
  dom (Fractal.run ops (Fractal.__init__ tv kw h)).2 =
    dom (Fractal.__init__ tv kw h).2 /\
  (forall q, q ∈ dom h ->
     (Fractal.run ops (Fractal.__init__ tv kw h)).2 !! q = h !! q) /\
  (Fractal.__call__ (Fractal.run ops (Fractal.__init__ tv kw h)).1
                    (Fractal.run ops (Fractal.__init__ tv kw h)).2).1 =
    Fractal.px (Fractal.__init__ tv kw h).1.
Proof.
  pose proof (init_fresh tv kw h) as Hfresh.
  assert (Hold : forall q, q ∈ dom h ->
            (Fractal.__init__ tv kw h).2 !! q = h !! q).
  { intros q Hq.
    change ((<[fresh (dom h) := Pixels_new tv]> h) !! q = h !! q).
    apply lookup_insert_ne. intros Heq. apply Hfresh.
    change (fresh (dom h) ∈ dom h). rewrite Heq. exact Hq. }
  split; [exact Hfresh|]. split; [apply init_lookup|].
  split; [unfold Fractal.__init__; cbn [fst snd Fractal.px]; apply dom_insert_L|].
  split; [exact Hold|]. split; [apply run_px|]. split; [apply run_dom|].
  split.
  - intros q Hq. rewrite run_lookup_ne; [apply Hold; exact Hq|].
    intros ->. contradiction.
  - unfold Fractal.__call__, Fractal.step. cbn [fst Fractal.px]. apply run_px.
Qed.

(** * Further properties of the code *)

(** ** [complex_sqr] and the escape loop *)

Lemma norm_square z : norm z * norm z = z.1 * z.1 + z.2 * z.2.
Proof. unfold norm. apply sqrt_sqrt. nra. Qed.

(** X1: [complex_sqr] squares the length: |z²| = |z|². *)
Theorem complex_sqr_norm z : norm (complex_sqr z) = norm z * norm z.
Proof.
  rewrite norm_square. destruct z as [a b]. unfold norm, complex_sqr.
  cbn [fst snd].
  replace ((a ^ 2 - b ^ 2) * (a ^ 2 - b ^ 2) + 2 * a * b * (2 * a * b))
    with ((a * a + b * b) * (a * a + b * b)) by ring.
  apply sqrt_square. nra.
Qed.

Lemma norm_vneg z : norm (vneg z) = norm z.
Proof. unfold norm, vneg. cbn [fst snd]. f_equal. ring. Qed.

Lemma complex_sqr_vneg z : complex_sqr (vneg z) = complex_sqr z.
Proof. unfold complex_sqr, vneg. cbn [fst snd]. f_equal; ring. Qed.

Lemma norm_vconj z : norm (vconj z) = norm z.
Proof. unfold norm, vconj. cbn [fst snd]. f_equal. ring. Qed.

Lemma loop_body_vconj c z :
  vadd (complex_sqr (vconj z)) (vconj c) = vconj (vadd (complex_sqr z) c).
Proof. unfold vadd, complex_sqr, vconj. cbn [fst snd]. f_equal; ring. Qed.

(** Two runs of the loop that agree on the length of the current point and
    on what follows a turn agree on the count. *)
Lemma while_loop_congr c c' z z' k :
  norm z' = norm z ->
  (loop_guard z k ->
   while_loop c' (vadd (complex_sqr z') c') (S k) =
   while_loop c (vadd (complex_sqr z) c) (S k)) ->
  while_loop c' z' k = while_loop c z k.
Proof.
  intros Hn Hnext. rewrite (while_loop_turn c' z'), (while_loop_turn c z).
  destruct (decide (loop_guard z' k)) as [Hg'|Hg'];
    destruct (decide (loop_guard z k)) as [Hg|Hg];
    unfold loop_guard in *; rewrite Hn in Hg'; try reflexivity;
    try contradiction.
  apply Hnext. exact Hg.
Qed.

(** The loop cannot tell a start point from the opposite point. *)
Lemma while_loop_vneg c z k : while_loop c (vneg z) k = while_loop c z k.
Proof.
  apply while_loop_congr; [apply norm_vneg|].
  intros _. rewrite complex_sqr_vneg. reflexivity.
Qed.

(** Mirroring both the start point and the parameter in the real axis
    mirrors the whole orbit, and leaves the count as it is. *)
Lemma while_loop_vconj c z k :
  while_loop (vconj c) (vconj z) k = while_loop c z k.
Proof.
  remember (50 - k)%nat as m eqn:Hm.
  revert z k Hm. induction m as [|m IH]; intros z k Hm;
    (apply while_loop_congr; [apply norm_vconj|]); intros [_ Hlt]; [lia|].
  rewrite loop_body_vconj. apply IH. lia.
Qed.

(** ** Symmetries of a frame *)

Lemma mirrored_fraction i x :
  (0 < x)%nat -> (i <= x)%nat ->
  INR (x - i) / INR x * 2 - 1 = - (INR i / INR x * 2 - 1).
Proof.
  intros Hx Hi. rewrite minus_INR by exact Hi.
  assert (Hx' : INR x <> 0) by (apply not_0_INR; lia).
  field. exact Hx'.
Qed.

(** X2: the frame is symmetric about the centre of the grid: the cell
    [(x - i, y - j)] samples the point opposite to the one of [(i, j)] and
    gets the same colour. *)
Theorem frame_point_symmetric x y i j t :
  (0 < i < x)%nat -> (0 < j < y)%nat ->
  cell_z0 x y (x - i) (y - j) = vneg (cell_z0 x y i j) /\
  cell_color x y (x - i) (y - j) t = cell_color x y i j t.
Proof.
  intros Hi Hj.
  assert (Hz : cell_z0 x y (x - i) (y - j) = vneg (cell_z0 x y i j)).
  { unfold cell_z0, vmul, vneg. cbn [fst snd].
    rewrite !mirrored_fraction by lia. f_equal; ring. }
  split; [exact Hz|].
  unfold cell_color, cell_val, cell_iterations.
  rewrite Hz, while_loop_vneg. reflexivity.
Qed.

Lemma frame_point_symmetric_witness :
  ((0 < 1 < 4)%nat /\ (0 < 3 < 4)%nat) /\
  cell_color 4 4 (4 - 1) (4 - 3) 0.03 = cell_color 4 4 1 3 0.03.
Proof.
  split; [split; lia|].
  apply (frame_point_symmetric 4 4 1 3 0.03); lia.
Defined.

(** X3: half a period later the frame is flipped: at time [t + π] the cell
    [(i, y - j)] has the colour that [(i, j)] has at time [t]. *)
Theorem half_period_flips_frame x y i j t :
  (0 < j < y)%nat ->
  cell_c (t + PI) = vconj (cell_c t) /\
  cell_color x y i (y - j) (t + PI) = cell_color x y i j t.
Proof.
  intros Hj.
  assert (Hc : cell_c (t + PI) = vconj (cell_c t)).
  { unfold cell_c, vconj. cbn [fst snd]. rewrite neg_cos. f_equal. ring. }
  assert (Hz : cell_z0 x y i (y - j) = vconj (cell_z0 x y i j)).
  { unfold cell_z0, vmul, vconj. cbn [fst snd].
    rewrite mirrored_fraction by lia. f_equal. ring. }
  split; [exact Hc|].
  unfold cell_color, cell_val, cell_iterations.
  rewrite Hc, Hz, while_loop_vconj. reflexivity.
Qed.

Lemma half_period_flips_frame_witness :
  (0 < 1 < 4)%nat /\
  cell_color 4 4 2 (4 - 1) (0.03 + PI) = cell_color 4 4 2 1 0.03.
Proof.
  split; [lia|]. apply (half_period_flips_frame 4 4 2 1 0.03). lia.
Defined.

(** ** How bright a cell can be *)




(** X5: every colour the kernel computes is a valid colour without clamping:
    red in [0, 1], green in [0, 0.3], blue in [0, 0.8], alpha 1, for every
    index, grid and time. *)
Theorem cell_color_channels x y i j t :
  0 <= red (cell_color x y i j t) <= 1 /\
  0 <= green (cell_color x y i j t) <= 0.3 /\
  0 <= blue (cell_color x y i j t) <= 0.8 /\
  alpha (cell_color x y i j t) = 1.
Proof.
  pose proof (cell_val_bounds x y i j t) as Hv.
  unfold red, green, blue, alpha, cell_color. cbn [fst snd].
  repeat split; lra.
Qed.

(** ** Frames in the store *)

Lemma written_written x y t t' l P :
  written x y t' l (written x y t l P) = written x y t' l P.
Proof.
  assert (Hm : rgba (written x y t' l (written x y t l P)) =
               rgba (written x y t' l P)).
  { apply map_eq. intros [i j]. rewrite !written_lookup.
    destruct (decide ((i, j) ∈ l)); reflexivity. }
  unfold written in *. cbn [rgba] in *. rewrite Hm. reflexivity.
Qed.

Lemma draw_draw a b (h : Heap) :
  Fractal.px b = Fractal.px a -> Fractal.tv b = Fractal.tv a ->
  Fractal.draw b (Fractal.draw a h) = Fractal.draw b h.
Proof.
  intros Hp Ht. rewrite !draw_alter, Hp, Ht, alter_alter_eq.
  apply alter_ext. intros P _. apply written_written.
Qed.

(** X6: a frame erases the one before it: drawing at one time and then at
    another leaves the store that the second drawing alone leaves.  In
    particular drawing twice at the same time is drawing once. *)
Theorem draw_erases_previous_frame self self' (h : Heap) :
  Fractal.px self' = Fractal.px self -> Fractal.tv self' = Fractal.tv self ->
  Fractal.draw self' (Fractal.draw self h) = Fractal.draw self' h /\
  Fractal.draw self (Fractal.draw self h) = Fractal.draw self h.
Proof.
  intros Hpx Htv.
  split; [apply draw_draw; assumption | apply draw_draw; reflexivity].
Qed.

Lemma draw_erases_previous_frame_witness :
  (Fractal.px (Fractal.step fresh4.1 fresh4.2).1 = Fractal.px fresh4.1 /\
   Fractal.tv (Fractal.step fresh4.1 fresh4.2).1 = Fractal.tv fresh4.1) /\
  Fractal.draw (Fractal.step fresh4.1 fresh4.2).1
    (Fractal.draw fresh4.1 fresh4.2) =
  Fractal.draw (Fractal.step fresh4.1 fresh4.2).1 fresh4.2.
Proof.
  split; [split; reflexivity|].
  exact (proj1 (draw_erases_previous_frame fresh4.1
                  (Fractal.step fresh4.1 fresh4.2).1 fresh4.2
                  eq_refl eq_refl)).
Defined.

(** Whatever the host did before, the store is the one it started with or
    one frame drawn on it. *)
Lemma run_store ops s :
  (Fractal.run ops s).2 = s.2 \/
  exists self, Fractal.px self = Fractal.px s.1 /\
    Fractal.tv self = Fractal.tv s.1 /\
    (Fractal.run ops s).2 = Fractal.draw self s.2.
Proof.
  induction ops as [|o ops IH] using rev_ind; [left; reflexivity|].
  unfold Fractal.run in *. rewrite foldl_app. cbn [foldl].
  set (r := foldl (λ s o, Fractal.exec o s) s ops) in *.
  assert (Hp : Fractal.px r.1 = Fractal.px s.1) by apply run_px.
  assert (Ht : Fractal.tv r.1 = Fractal.tv s.1) by apply run_tv.
  destruct o; cbn [Fractal.exec]; rewrite ?call_step; cbn [snd];
    try exact IH.
  all: right; exists (Fractal.step r.1 r.2).1; split; [exact Hp|];
    split; [exact Ht|]; unfold Fractal.step at 1; cbn [snd];
    destruct IH as [->|(self & Hps & Hts & ->)]; [reflexivity|];
    apply draw_draw; cbn [Fractal.step fst Fractal.px Fractal.tv];
    congruence.
Qed.

(** X7: after any history, the store a tick leaves is the store before the
    history with one frame drawn on it, the frame of the time the tick
    reaches: earlier frames leave no trace. *)
Theorem tick_store_is_one_frame ops s :
  (Fractal.step (Fractal.run ops s).1 (Fractal.run ops s).2).2 =
  Fractal.draw (Fractal.step (Fractal.run ops s).1 (Fractal.run ops s).2).1
               s.2.
Proof.
  unfold Fractal.step at 1. cbn [snd].
  destruct (run_store ops s) as [->|(self & Hp & Ht & ->)]; [reflexivity|].
  apply draw_draw; cbn [Fractal.step fst Fractal.px Fractal.tv].
  - rewrite run_px. congruence.
  - rewrite run_tv. congruence.
Qed.

(** X8: with the speed at zero the animation is frozen: a second [step]
    changes neither the vera nor the store. *)
Theorem frozen_step_idempotent self (h : Heap) :
  Fractal.speed self = 0 ->
  Fractal.step (Fractal.step self h).1 (Fractal.step self h).2 =
  Fractal.step self h.
Proof.
  intros Hs. unfold Fractal.step.
  cbn [fst snd Fractal.tv Fractal.kwargs Fractal.time Fractal.speed
       Fractal.px].
  rewrite Hs, !Rplus_0_r.
  f_equal. apply draw_draw; reflexivity.
Qed.

Lemma frozen_step_idempotent_witness :
  Fractal.speed (Fractal.set_speed fresh4.1 0) = 0 /\
  Fractal.step
    (Fractal.step (Fractal.set_speed fresh4.1 0) fresh4.2).1
    (Fractal.step (Fractal.set_speed fresh4.1 0) fresh4.2).2 =
  Fractal.step (Fractal.set_speed fresh4.1 0) fresh4.2.
Proof.
  split; [reflexivity|].
  apply (frozen_step_idempotent (Fractal.set_speed fresh4.1 0) fresh4.2).
  reflexivity.
Defined.

(** X9: the cells can be written in any order: every arrangement of the index
    pairs of the grid leaves the store that [draw] leaves. *)
Theorem draw_any_order self (h : Heap) (l : list (nat * nat)) :
  l ≡ₚ ndrange (tv_x (Fractal.tv self)) (tv_y (Fractal.tv self)) ->
  foldl (λ h '(i, j),
           write_rgba (Fractal.px self) (i, j)
             (cell_color (tv_x (Fractal.tv self)) (tv_y (Fractal.tv self))
                i j (Fractal.time self)) h) h l =
  Fractal.draw self h.
Proof. intros Hp. unfold Fractal.draw. apply write_order_irrelevant, Hp. Qed.

Lemma draw_any_order_witness :
  reverse (ndrange 4 4) ≡ₚ
    ndrange (tv_x (Fractal.tv fresh4.1)) (tv_y (Fractal.tv fresh4.1)) /\
  foldl (λ h '(i, j),
           write_rgba (Fractal.px fresh4.1) (i, j)
             (cell_color 4 4 i j (Fractal.time fresh4.1)) h)
        fresh4.2 (reverse (ndrange 4 4)) =
  Fractal.draw fresh4.1 fresh4.2.
Proof.
  assert (Hp : reverse (ndrange 4 4) ≡ₚ
    ndrange (tv_x (Fractal.tv fresh4.1)) (tv_y (Fractal.tv fresh4.1)))
    by apply reverse_Permutation.
  split; [exact Hp|].
  exact (draw_any_order fresh4.1 fresh4.2 (reverse (ndrange 4 4)) Hp).
Defined.

Lemma ndrange_empty x y : x = 0%nat \/ y = 0%nat -> ndrange x y = [].
Proof.
  intros [->| ->]; [reflexivity|].
  unfold ndrange. induction (seq 0 x) as [|a l IH]; [reflexivity|].
  cbn. exact IH.
Qed.

(** X10: on a grid without columns or without rows the kernel has no cell to
    visit: [draw] leaves the store as it is and [step] only advances the
    clock. *)
Theorem empty_grid_draws_nothing self (h : Heap) :
  tv_x (Fractal.tv self) = 0%nat \/ tv_y (Fractal.tv self) = 0%nat ->
  Fractal.draw self h = h /\
  (Fractal.step self h).2 = h /\
  Fractal.time (Fractal.step self h).1 = Fractal.time self + Fractal.speed self.
Proof.
  intros He.
  assert (Hd : forall a, Fractal.tv a = Fractal.tv self ->
                         Fractal.draw a h = h).
  { intros a Ha. unfold Fractal.draw. rewrite Ha.
    rewrite (ndrange_empty _ _ He). reflexivity. }
  split; [apply Hd; reflexivity|]. split; [|reflexivity].
  unfold Fractal.step. cbn [snd]. apply Hd. reflexivity.
Qed.

Lemma empty_grid_draws_nothing_witness :
  (tv_x (Fractal.tv (Fractal.__init__ tv0 ∅ ∅).1) = 0%nat \/
   tv_y (Fractal.tv (Fractal.__init__ tv0 ∅ ∅).1) = 0%nat) /\
  (Fractal.step (Fractal.__init__ tv0 ∅ ∅).1 (Fractal.__init__ tv0 ∅ ∅).2).2 =
  (Fractal.__init__ tv0 ∅ ∅).2.
Proof.
  assert (He : tv_x (Fractal.tv (Fractal.__init__ tv0 ∅ ∅).1) = 0%nat \/
               tv_y (Fractal.tv (Fractal.__init__ tv0 ∅ ∅).1) = 0%nat)
    by (left; reflexivity).
  split; [exact He|].
  exact (proj1 (proj2 (empty_grid_draws_nothing
                         (Fractal.__init__ tv0 ∅ ∅).1 _ He))).
Defined.

(** ** [__call__] and construction *)

(** X11: [__call__] hands back the vera's own buffer reference, and in the store
    it leaves that reference leads to the new frame: every cell of the grid
    holds the colour of the time the call reached. *)
Theorem call_returns_new_frame self (h : Heap) P i j :
  h !! Fractal.px self = Some P ->
  (i < tv_x (Fractal.tv self))%nat -> (j < tv_y (Fractal.tv self))%nat ->
  (Fractal.__call__ self h).1 = Fractal.px self /\
  Fractal.time (Fractal.__call__ self h).2.1 =
    Fractal.time self + Fractal.speed self /\
  exists Q,
    (Fractal.__call__ self h).2.2 !! (Fractal.__call__ self h).1 = Some Q /\
    rgba Q !! (i, j) =
    Some (cell_color (tv_x (Fractal.tv self)) (tv_y (Fractal.tv self)) i j
            (Fractal.time self + Fractal.speed self)).
Proof.
  intros HP Hi Hj. split; [reflexivity|]. split; [reflexivity|].
  destruct (step_lookup_px self h P HP) as (Q & HQ & Hc).
  exists Q. split; [exact HQ|]. apply Hc; assumption.
Qed.

Lemma call_returns_new_frame_witness :
  (fresh4.2 !! Fractal.px fresh4.1 = Some (Pixels_new tv4) /\
   (1 < 4)%nat /\ (1 < 4)%nat) /\
  exists Q,
    (Fractal.__call__ fresh4.1 fresh4.2).2.2
      !! (Fractal.__call__ fresh4.1 fresh4.2).1 = Some Q /\
    rgba Q !! (1%nat, 1%nat) = Some (cell_color 4 4 1 1 (0.0 + 0.03)).
Proof.
  pose proof (init_lookup tv4 ∅ ∅) as HP.
  split; [split; [exact HP | split; lia]|].
  refine (proj2 (proj2 (call_returns_new_frame fresh4.1 fresh4.2
                          (Pixels_new tv4) 1 1 HP _ _)));
    cbn [fresh4 Fractal.__init__ fst Fractal.tv tv4 tv_x tv_y]; lia.
Defined.

(** X12: ticks, whether [step] or [__call__], advance the clock alike: [n] of
    them from any state add [n] times the speed, and leave the speed. *)
Theorem ticks_advance_clock ops s :
  Forall is_tick ops ->
  Fractal.time (Fractal.run ops s).1 =
    Fractal.time s.1 + INR (length ops) * Fractal.speed s.1 /\
  Fractal.speed (Fractal.run ops s).1 = Fractal.speed s.1.
Proof.
  revert s. induction ops as [|o ops IH]; intros s Hf.
  - cbn [length INR]. unfold Fractal.run. cbn [foldl]. split; [lra|reflexivity].
  - apply Forall_cons in Hf as [Ho Hf].
    change (length (o :: ops)) with (S (length ops)). rewrite S_INR.
    unfold Fractal.run in *. cbn [foldl].
    destruct (IH (Fractal.exec o s) Hf) as [-> ->].
    destruct o; cbn [is_tick] in Ho; [|contradiction|];
      cbn [Fractal.exec]; rewrite ?call_step, step_time;
      unfold Fractal.step; cbn [fst Fractal.speed]; split; (lra || reflexivity).
Qed.

Lemma ticks_advance_clock_witness :
  Forall is_tick [Fractal.Call; Fractal.Step; Fractal.Call] /\
  Fractal.time
    (Fractal.run [Fractal.Call; Fractal.Step; Fractal.Call] fresh4).1 =
  Fractal.time fresh4.1 + INR 3 * Fractal.speed fresh4.1.
Proof.
  assert (Hf : Forall is_tick [Fractal.Call; Fractal.Step; Fractal.Call])
    by (repeat constructor).
  split; [exact Hf|].
  exact (proj1 (ticks_advance_clock _ fresh4 Hf)).
Defined.

(** X13: only the keyword [speed] is read at construction: without it the speed
    is 0.03, with it the speed is its value, and any other keyword changes
    nothing but the stored keywords: the same clock, speed, buffer
    reference and store. *)
Theorem init_reads_speed_only tv kw (h : Heap) k v s :
  k <> "speed"%string ->
  Fractal.speed (Fractal.__init__ tv (delete "speed"%string kw) h).1 = 0.03 /\
  Fractal.speed (Fractal.__init__ tv (<["speed"%string := s]> kw) h).1 = s /\
  Fractal.speed (Fractal.__init__ tv (<[k := v]> kw) h).1 =
    Fractal.speed (Fractal.__init__ tv kw h).1 /\
  Fractal.time (Fractal.__init__ tv (<[k := v]> kw) h).1 = 0 /\
  Fractal.px (Fractal.__init__ tv (<[k := v]> kw) h).1 =
    Fractal.px (Fractal.__init__ tv kw h).1 /\
  (Fractal.__init__ tv (<[k := v]> kw) h).2 = (Fractal.__init__ tv kw h).2.
Proof.
  intros Hk. unfold Fractal.__init__.
  cbn [fst snd Fractal.speed Fractal.time Fractal.px].
  rewrite lookup_delete_eq, lookup_insert_eq, lookup_insert_ne by exact Hk.
  repeat split. lra.
Qed.

Lemma init_reads_speed_only_witness :
  "zoom"%string <> "speed"%string /\
  Fractal.speed (Fractal.__init__ tv4 (<["zoom"%string := 2]> ∅) ∅).1 =
  Fractal.speed (Fractal.__init__ tv4 ∅ ∅).1.
Proof.
  assert (Hk : "zoom"%string <> "speed"%string) by discriminate.
  split; [exact Hk|].
  exact (proj1 (proj2 (proj2
    (init_reads_speed_only tv4 ∅ ∅ "zoom"%string 2 0 Hk)))).
Defined.

(** X14: two veras constructed one after the other in the same store get two
    different buffers, and nothing the second one does changes the buffer
    of the first. *)
Theorem veras_do_not_share tv kw tv' kw' (h : Heap) ops :
  Fractal.px (Fractal.__init__ tv' kw' (Fractal.__init__ tv kw h).2).1 <>
    Fractal.px (Fractal.__init__ tv kw h).1 /\
  (Fractal.run ops (Fractal.__init__ tv' kw' (Fractal.__init__ tv kw h).2)).2
    !! Fractal.px (Fractal.__init__ tv kw h).1 = Some (Pixels_new tv).
Proof.
  set (A := Fractal.__init__ tv kw h).
  set (B := Fractal.__init__ tv' kw' A.2).
  pose proof (init_fresh tv' kw' A.2) as Hfresh. fold B in Hfresh.
  assert (HA : A.2 !! Fractal.px A.1 = Some (Pixels_new tv))
    by apply init_lookup.
  assert (Hne : Fractal.px B.1 <> Fractal.px A.1).
  { intros Heq. apply Hfresh. rewrite Heq. apply elem_of_dom. eauto. }
  split; [exact Hne|].
  rewrite run_lookup_ne by congruence.
  unfold B, Fractal.__init__ at 1. cbn [snd].
  rewrite lookup_insert_ne; [exact HA|].
  intros Heq. apply Hne. unfold B, Fractal.__init__ at 1. cbn [fst Fractal.px].
  exact Heq.
Qed.

Lemma written_shape x y t P i j :
  (forall i j, is_Some (rgba P !! (i, j)) <-> (i < x)%nat /\ (j < y)%nat) ->
  is_Some (rgba (written x y t (ndrange x y) P) !! (i, j)) <->
  (i < x)%nat /\ (j < y)%nat.
Proof.
  intros HP. rewrite written_lookup.
  destruct (decide ((i, j) ∈ ndrange x y)) as [Hin|Hin].
  - apply elem_of_ndrange in Hin. split; [intros _; exact Hin | eauto].
  - apply HP.
Qed.

(** X15: the buffer keeps the shape it was created with: in every state the
    host can reach after construction, the vera's reference leads to a
    buffer that has a cell at [(i, j)] exactly when [i < tv.x] and
    [j < tv.y]. *)
Theorem buffer_keeps_shape tv kw (h : Heap) ops i j :
  exists P,
    (Fractal.run ops (Fractal.__init__ tv kw h)).2
      !! Fractal.px (Fractal.run ops (Fractal.__init__ tv kw h)).1 = Some P /\
    (is_Some (rgba P !! (i, j)) <-> (i < tv_x tv)%nat /\ (j < tv_y tv)%nat).
Proof.
  set (s := Fractal.__init__ tv kw h).
  assert (Hnew : forall i j, is_Some (rgba (Pixels_new tv) !! (i, j)) <->
                   (i < tv_x tv)%nat /\ (j < tv_y tv)%nat).
  { intros a b. rewrite Pixels_new_lookup.
    destruct (decide _) as [Hin|Hout]; [split; eauto|].
    split; [intros [? Hc]; discriminate | contradiction]. }
  assert (Hs : s.2 !! Fractal.px s.1 = Some (Pixels_new tv))
    by apply init_lookup.
  assert (Htv : Fractal.tv s.1 = tv) by reflexivity.
  rewrite run_px.
  destruct (run_store ops s) as [->|(self & Hp & Ht & ->)].
  - exists (Pixels_new tv). split; [exact Hs | apply Hnew].
  - rewrite draw_alter, Hp, lookup_alter_eq, Hs. cbn [fmap option_fmap option_map].
    eexists. split; [reflexivity|].
    rewrite Ht, Htv. apply written_shape. exact Hnew.
Qed.
